(** * MaxBuilds XJ: the hash router and the page composer of [src/App.jsx]

    The site is one React component, [App], over a four-line router,
    [useRoute].  This development embeds

    - the string primitives the source calls ([replace], [||], [===],
      [includes]);
    - the part of the hosting page the router talks to: the URL fragment
      behind [window.location.hash], the list of [hashchange] listeners of
      [window] and the queue of [hashchange] events not yet dispatched;
    - the two hooks of [useRoute] ([useState], [useEffect] with an empty
      dependency array) as explicit state of the mounted component;
    - the components [App], [GalleryPage], [FactoryDocuments] and the
      submit handler of [ContactPage].

    Strings are sequences of bytes (UTF-8).  Every character the source
    inspects is ASCII. *)

From Stdlib Require Import String Ascii List Bool Arith Lia.
Import ListNotations.
Local Open Scope string_scope.
Local Open Scope list_scope.

(** ** String and array primitives of the host language *)

Module JS.

(** [a === b] on two strings. *)
Definition strict_eq (a b : string) : bool := String.eqb a b.

(** A string is falsy exactly when it is empty. *)
Definition truthy (s : string) : bool := negb (String.eqb s "").

(** [a || b] on strings. *)
Definition or_else (a b : string) : string := if truthy a then a else b.

(** [s.replace(pat, rep)] with a string pattern: only the first
    occurrence of [pat] is replaced.  The replacement is taken as it is;
    the source passes the empty string. *)
Fixpoint replace (pat rep s : string) : string :=
  if String.prefix pat s
  then rep ++ String.substring (String.length pat)
                               (String.length s - String.length pat) s
  else match s with
       | EmptyString => EmptyString
       | String c s' => String c (replace pat rep s')
       end.

(** [xs.includes(x)] on an array of strings. *)
Definition includes (xs : list string) (x : string) : bool :=
  existsb (strict_eq x) xs.

(** [c && e] in a JSX child position: [false] renders nothing. *)
Definition and_then {A : Type} (c : bool) (e : A) : option A :=
  if c then Some e else None.

End JS.

(** ** Site data *)

Record Doc := mkDoc
  { doc_id : nat; doc_name : string; doc_url : string;
    doc_size : string; doc_notes : string }.

Record Image := mkImage
  { img_id : nat; img_title : string; img_src : string }.

Definition FACTORY_DOCS : list Doc :=
  [ mkDoc 1 "Factory Service Manual - 1997 XJ.pdf"
          "/factory-docs/1997-xj-service-manual.pdf" "8.2 MB" "Scanned.";
    mkDoc 2 "Wiring Diagrams - Full.pdf"
          "/factory-docs/wiring-diagrams.pdf" "3.9 MB" "Color scan." ].

Definition GALLERY : list Image :=
  [ mkImage 1 "1968 AMX swap fitment" "/images/build-1.jpg";
    mkImage 2 "Roll cage mockup" "/images/build-2.jpg";
    mkImage 3 "Trail ready XJ" "/images/build-3.jpg" ].

(** ** Components *)

(** What [GalleryPage] renders for one image: a [figure] keyed by the id,
    with an [img] and a caption. *)
Record Figure := mkFigure
  { fig_key : nat; fig_src : string; fig_alt : string; fig_caption : string }.

Definition GalleryPage : list Figure :=
  map (fun img => mkFigure (img_id img) (img_src img) (img_title img)
                           (img_title img)) GALLERY.

(** What [FactoryDocuments] renders for one document: a card keyed by the
    id, with the name as heading, the size and the notes on one line, and
    two links to the url. *)
Record DocCard := mkDocCard
  { card_key : nat; card_heading : string; card_size : string;
    card_notes : string; card_view_href : string;
    card_download_href : string; card_aria_label : string }.

(** [function FactoryDocuments({ docs = FACTORY_DOCS })] at its first
    render: the prop is optional; the list state is initialised with it and
    the only effect has an empty body, so the rendered list is the initial
    one.  [App] passes no prop and never changes it. *)
Definition FactoryDocuments (docs : option (list Doc)) : list DocCard :=
  let docs := match docs with Some d => d | None => FACTORY_DOCS end in
  let list := docs in
  map (fun d => mkDocCard (doc_id d) (doc_name d) (doc_size d) (doc_notes d)
                          (doc_url d) (doc_url d) ("Open " ++ doc_name d))
      list.

(** The six children of the [main] element of [App]. *)
Inductive View :=
| HomeView            (* Hero, Highlights and the featured project *)
| BuildsView          (* <BuildsPage /> *)
| GalleryView         (* <GalleryPage /> *)
| DocumentsView       (* <FactoryDocuments /> , no props *)
| ContactView         (* <ContactPage /> *)
| NotFoundView.       (* "Page not found" *)

Definition KNOWN_ROUTES : list string :=
  ["/"; "/builds"; "/gallery"; "/docs"; "/contact"].

(** The six selection conditions of [App], in source order. *)
Definition App_conditions (route : string) : list (bool * View) :=
  [ (JS.strict_eq route "/", HomeView);
    (JS.strict_eq route "/builds", BuildsView);
    (JS.strict_eq route "/gallery", GalleryView);
    (JS.strict_eq route "/docs", DocumentsView);
    (JS.strict_eq route "/contact", ContactView);
    (negb (JS.includes KNOWN_ROUTES route), NotFoundView) ].

(** The children of [main] as JSX evaluates them: one slot per
    condition, empty when the condition is false. *)
Definition App_slots (route : string) : list (option View) :=
  map (fun cv => JS.and_then (fst cv) (snd cv)) (App_conditions route).

(** The views that end up in the page: the non-empty slots, in order. *)
Fixpoint rendered {A : Type} (slots : list (option A)) : list A :=
  match slots with
  | [] => []
  | Some v :: rest => v :: rendered rest
  | None :: rest => rendered rest
  end.

Definition App_main (route : string) : list View := rendered (App_slots route).

(** What the documents view and the gallery view show when [App] mounts
    them ([<FactoryDocuments />] and [<GalleryPage />] take no props). *)
Definition view_doc_cards (v : View) : list DocCard :=
  match v with DocumentsView => FactoryDocuments None | _ => [] end.

Definition view_figures (v : View) : list Figure :=
  match v with GalleryView => GalleryPage | _ => [] end.

(** The composer as the specification words it: each route of the closed
    set has its own view, every other string has the "not found" view.
    [App_main] above is the one read off the source; the two are compared
    below. *)
Definition spec_composer (route : string) : View :=
  if String.eqb route "/" then HomeView
  else if String.eqb route "/builds" then BuildsView
  else if String.eqb route "/gallery" then GalleryView
  else if String.eqb route "/docs" then DocumentsView
  else if String.eqb route "/contact" then ContactView
  else NotFoundView.


(** ** The hosting page *)

Module Browser.

(** *** The fragment of the page's URL

    The URL record keeps the fragment as an optional string: [None] when
    the address has no [#] at all, [Some ""] when it ends in [#]. *)

Definition fragment_eqb (a b : option string) : bool :=
  match a, b with
  | None, None => true
  | Some x, Some y => String.eqb x y
  | _, _ => false
  end.

(** The URL parser drops every tab and newline of its input. *)
Definition is_tab_or_newline (c : ascii) : bool :=
  let n := nat_of_ascii c in
  (Nat.eqb n 9 || Nat.eqb n 10 || Nat.eqb n 13)%bool.

(** The fragment percent-encode set: the C0 controls, every byte above
    [~], and space, double quote, [<], [>] and the backquote. *)
Definition in_fragment_percent_encode_set (c : ascii) : bool :=
  let n := nat_of_ascii c in
  (Nat.leb n 31 || Nat.ltb 126 n ||
   Nat.eqb n 32 || Nat.eqb n 34 || Nat.eqb n 60 || Nat.eqb n 62 ||
   Nat.eqb n 96)%bool.

Definition hex_digit (n : nat) : ascii :=
  match n with
  | 0 => "0" | 1 => "1" | 2 => "2" | 3 => "3" | 4 => "4" | 5 => "5"
  | 6 => "6" | 7 => "7" | 8 => "8" | 9 => "9" | 10 => "A" | 11 => "B"
  | 12 => "C" | 13 => "D" | 14 => "E" | _ => "F"
  end%char.

Definition percent_encode (c : ascii) : string :=
  let n := nat_of_ascii c in
  String "%"%char
    (String (hex_digit (n / 16)) (String (hex_digit (n mod 16)) "")).

(** The URL parser run in its fragment state over [input]. *)
Fixpoint parse_fragment (input : string) : string :=
  match input with
  | EmptyString => EmptyString
  | String c rest =>
      if is_tab_or_newline c then parse_fragment rest
      else if in_fragment_percent_encode_set c
           then percent_encode c ++ parse_fragment rest
           else String c (parse_fragment rest)
  end.

(** The getter of [location.hash]: empty when the fragment is missing or
    empty, otherwise [#] followed by the fragment. *)
Definition hash_getter (fragment : option string) : string :=
  match fragment with
  | None => ""
  | Some f => if String.eqb f "" then "" else "#" ++ f
  end.

(** The setter of [location.hash] removes a single leading [#] from the
    given value and parses the rest as the new fragment. *)
Definition strip_leading_hash (value : string) : string :=
  match value with
  | String "#"%char rest => rest
  | _ => value
  end.

Definition hash_setter_fragment (value : string) : option string :=
  Some (parse_fragment (strip_leading_hash value)).

(** The setter compares the new fragment with the one the URL has, a
    missing fragment counting as the empty one. *)
Definition fragment_or_empty (fragment : option string) : string :=
  match fragment with Some f => f | None => "" end.

(** *** The [hashchange] listeners of [window]

    A listener is known by the identity of its callback, a function
    object; function objects are numbered in the order they are created.
    Type and capture flag are the same for all of them here. *)

Definition addEventListener (cb : nat) (ls : list nat) : list nat :=
  if existsb (Nat.eqb cb) ls then ls else ls ++ [cb].

Fixpoint removeEventListener (cb : nat) (ls : list nat) : list nat :=
  match ls with
  | [] => []
  | l :: rest => if Nat.eqb cb l then rest
                 else l :: removeEventListener cb rest
  end.

End Browser.

(** ** The router: [useRoute] inside a page *)

(** The effect of [useRoute] once it has run: the [onHash] closure it
    created, which its cleanup closure captured, and the dependency array it
    was registered with ([None] stands for a missing array). *)
Record EffectState := mkEffect
  { onHash_fn : nat; deps : option (list string) }.

(** The hook state of the mounted [App]: the [route] cell of [useState],
    the number of times React has called [App] again since the mount, the
    effect, and whether the last call stored a new route.  After such a
    call React still holds work flagged on the spare copy of the component:
    it cannot tell a following [setRoute] is redundant without calling
    [App] once more; that call clears the flag. *)
Record Instance := mkInstance
  { route : string; rerenders : nat; effect : option EffectState;
    stale : bool }.

Record World := mkWorld
  { fragment : option string;    (* fragment of window.location *)
    listeners : list nat;        (* hashchange listeners of window *)
    queue : nat;                 (* hashchange events queued, not dispatched *)
    next_fn : nat;               (* number of the next function object *)
    app : option Instance }.     (* the mounted App, if any *)

Definition set_fragment (f : option string) (w : World) : World :=
  mkWorld f (listeners w) (queue w) (next_fn w) (app w).
Definition set_listeners (ls : list nat) (w : World) : World :=
  mkWorld (fragment w) ls (queue w) (next_fn w) (app w).
Definition set_queue (q : nat) (w : World) : World :=
  mkWorld (fragment w) (listeners w) q (next_fn w) (app w).
Definition set_next_fn (n : nat) (w : World) : World :=
  mkWorld (fragment w) (listeners w) (queue w) n (app w).
Definition set_app (a : option Instance) (w : World) : World :=
  mkWorld (fragment w) (listeners w) (queue w) (next_fn w) a.

(** [window.location.hash] read. *)
Definition location_hash (w : World) : string :=
  Browser.hash_getter (fragment w).

(** [window.location.hash = value]: nothing happens when the parsed
    fragment is the one the URL already has (none counting as empty);
    otherwise the URL changes and one [hashchange] event is queued. *)
Definition set_location_hash (value : string) (w : World) : World :=
  let f := Browser.hash_setter_fragment value in
  if Browser.fragment_eqb f (Some (Browser.fragment_or_empty (fragment w)))
  then w
  else set_queue (S (queue w)) (set_fragment f w).

(** A fragment navigation that does not come from [nav]: the link
    [<a href="#/">] of the top bar, the address bar, the history buttons. *)
Definition goto_fragment (f : option string) (w : World) : World :=
  if Browser.fragment_eqb f (fragment w) then w
  else set_queue (S (queue w)) (set_fragment f w).

(** [window.location.hash.replace('#', '') || '/'], the expression of both
    the initial state and [onHash]. *)
Definition read_route (w : World) : string :=
  JS.or_else (JS.replace "#" "" (location_hash w)) "/".

(** The dependency array of the effect of [useRoute]: [[]]. *)
Definition useRoute_deps : option (list string) := Some [].

(** Two dependency arrays are compared element by element. *)
Fixpoint same_deps (a b : list string) : bool :=
  match a, b with
  | [], [] => true
  | x :: a', y :: b' => String.eqb x y && same_deps a' b'
  | _, _ => false
  end.

(** An effect runs again after a render when it has no dependency array or
    when some dependency changed. *)
Definition deps_changed (old new : option (list string)) : bool :=
  match old, new with
  | Some a, Some b => negb (same_deps a b)
  | _, _ => true
  end.

(** The body of the effect: create [onHash], register it, and keep the
    cleanup that removes that same function. *)
Definition effect_setup (w : World) : World * EffectState :=
  let onHash := next_fn w in
  (set_listeners (Browser.addEventListener onHash (listeners w))
                 (set_next_fn (S onHash) w),
   mkEffect onHash useRoute_deps).

(** [() => window.removeEventListener('hashchange', onHash)]. *)
Definition effect_cleanup (e : EffectState) (w : World) : World :=
  set_listeners (Browser.removeEventListener (onHash_fn e) (listeners w)) w.

(** What React does with the effect after a render. *)
Definition commit_effect (old : option EffectState) (w : World)
  : World * EffectState :=
  match old with
  | None => effect_setup w
  | Some e => if deps_changed (deps e) useRoute_deps
              then effect_setup (effect_cleanup e w)
              else (w, e)
  end.

(** First render of [App]: [useState] evaluates its initial value, then the
    effect runs. *)
Definition mount (w : World) : World :=
  match app w with
  | Some _ => w
  | None =>
      let r := read_route w in
      let (w1, e) := commit_effect None w in
      set_app (Some (mkInstance r 0 (Some e) false)) w1
  end.

(** [App] is discarded: the cleanup of the effect runs. *)
Definition unmount (w : World) : World :=
  match app w with
  | None => w
  | Some i =>
      set_app None
        (match effect i with Some e => effect_cleanup e w | None => w end)
  end.

(** [setRoute(r)].  A value other than the current state is stored: [App]
    is called again and its effect is looked at.  A value identical to the
    current state is dropped at once when nothing is flagged; otherwise
    React calls [App] once more, finds the state unchanged and stops there,
    without running effects. *)
Definition setRoute (r : string) (w : World) : World :=
  match app w with
  | None => w
  | Some i =>
      if String.eqb r (route i) then
        if stale i
        then set_app (Some (mkInstance (route i) (S (rerenders i))
                                       (effect i) false)) w
        else w
      else
        let (w1, e) := commit_effect (effect i) w in
        set_app (Some (mkInstance r (S (rerenders i)) (Some e) true)) w1
  end.

(** [function onHash() { setRoute(...) }]. *)
Definition onHash (w : World) : World := setRoute (read_route w) w.

(** [function nav(to) { window.location.hash = to; }]. *)
Definition nav (to : string) (w : World) : World := set_location_hash to w.

(** Calling listener [cb]: it is the [onHash] of the mounted [App] or a
    function of another script, which leaves the router alone. *)
Definition invoke (cb : nat) (w : World) : World :=
  match app w with
  | Some i =>
      match effect i with
      | Some e => if Nat.eqb cb (onHash_fn e) then onHash w else w
      | None => w
      end
  | None => w
  end.

(** The page dispatches one queued [hashchange] event to the listeners
    registered at that moment.  An event target holds a callback at most
    once, so each one is called once. *)
Definition dispatch_hashchange (w : World) : World :=
  match queue w with
  | 0 => w
  | S q => fold_left (fun w cb => invoke cb w)
                     (nodup Nat.eq_dec (listeners w)) (set_queue q w)
  end.

Inductive Event :=
| Mount
| Unmount
| Nav (to : string)
| Goto (f : option string)
| Dispatch.

Definition step (w : World) (e : Event) : World :=
  match e with
  | Mount => mount w
  | Unmount => unmount w
  | Nav to => nav to w
  | Goto f => goto_fragment f w
  | Dispatch => dispatch_hashchange w
  end.

Definition run (es : list Event) (w : World) : World := fold_left step es w.

(** The page right after load: the fragment the address came with, the
    listeners other scripts registered, nothing queued, no [App] yet. *)
Definition page_load (f : option string) (others : list nat) : World :=
  mkWorld f others 0 (S (list_max others)) None.

Definition reachable (w : World) : Prop :=
  exists f others es, w = run es (page_load f others).

(** [currentRoute()] and the number of change notifications so far: the
    calls of [App] after the first. *)
Definition currentRoute (w : World) : option string :=
  option_map route (app w).

Definition notifications (w : World) : nat :=
  match app w with Some i => rerenders i | None => 0 end.

(** The mounted [App] is at rest: its route is the one the fragment gives,
    its listener is registered and no event is waiting. *)
Definition settled (w : World) : Prop :=
  queue w = 0 /\
  exists i e, app w = Some i /\ effect i = Some e /\
              deps e = useRoute_deps /\
              In (onHash_fn e) (listeners w) /\
              route i = read_route w.

(** Whether the mounted [App] has stored a new route in its last call. *)
Definition stale_app (w : World) : bool :=
  match app w with Some i => stale i | None => false end.

(** The hook state one [setRoute r] leaves, the effect having nothing to
    run again. *)
Definition after_set (r : string) (i : Instance) : Instance :=
  if String.eqb r (route i)
  then (if stale i
        then mkInstance (route i) (S (rerenders i)) (effect i) false
        else i)
  else mkInstance r (S (rerenders i)) (effect i) true.

(** [App] is mounted as [i] and the [onHash] of its effect is among the
    listeners. *)
Definition registered (w : World) (i : Instance) : Prop :=
  app w = Some i /\
  exists e, effect i = Some e /\ deps e = useRoute_deps /\
            In (onHash_fn e) (listeners w).

(** A target the setter of [location.hash] stores as it is given. *)
Definition stored_verbatim (target : string) : bool :=
  Browser.fragment_eqb (Browser.hash_setter_fragment target) (Some target).

(** *** The contact form *)

Record ContactForm := mkForm
  { your_name : string; your_email : string; message : string }.

(** What a click on "Send" can make the page do. *)
Inductive Action :=
| ReportValidity                  (* the browser points at the invalid field *)
| PreventDefault                  (* e.preventDefault() *)
| Alert (text : string)           (* alert(text) *)
| SendForm (data : ContactForm).  (* the default action: the form is sent *)

Definition is_PreventDefault (a : Action) : bool :=
  match a with PreventDefault => true | _ => false end.

Definition is_SendForm (a : Action) : bool :=
  match a with SendForm _ => true | _ => false end.

(** Constraint validation of the three controls: all are [required], the
    second has [type="email"], whose syntax check [email_ok] belongs to the
    browser. *)
Definition form_valid (email_ok : string -> bool) (f : ContactForm) : bool :=
  JS.truthy (your_name f) &&
  (JS.truthy (your_email f) && email_ok (your_email f)) &&
  JS.truthy (message f).

(** [(e) => { e.preventDefault(); alert('...'); }]: the handler reads
    neither the fields nor the router. *)
Definition onSubmit (w : World) : World * list Action :=
  (w, [PreventDefault; Alert "Replace this handler with a real endpoint"]).

(** A click on "Send": an invalid form is reported and no [submit] event is
    fired; a valid one fires the event, and the default action follows
    unless the handler prevented it. *)
Definition submit_form (email_ok : string -> bool) (f : ContactForm)
    (w : World) : World * list Action :=
  if form_valid email_ok f then
    let (w', acts) := onSubmit w in
    (w', acts ++ (if existsb is_PreventDefault acts then []
                  else [SendForm f]))
  else (w, [ReportValidity]).

Definition handler_ran (acts : list Action) : bool :=
  existsb is_PreventDefault acts.

(** The route a fragment stands for: itself, or [/] when there is none. *)
Definition route_of_fragment (f : option string) : string :=
  match f with
  | None => "/"
  | Some s => if String.eqb s "" then "/" else s
  end.


(** The bookkeeping every page reached from [page_load f others] obeys:
    function numbers in use are below [next_fn]; without [App] the
    listeners are those of the other scripts; with [App] mounted its one
    [onHash] comes after them, and the route is not empty. *)
Definition subscribed (others : list nat) (w : World) : Prop :=
  (forall cb, In cb (listeners w) -> cb < next_fn w) /\
  match app w with
  | None => listeners w = others
  | Some i =>
      exists h, effect i = Some (mkEffect h useRoute_deps) /\
                listeners w = others ++ [h] /\
                ~ In h others /\
                route i <> ""
  end.

(** ** The navigation bar, the mobile menu and the hero *)

(** A button whose [onClick] calls [nav]: its text, the argument it passes
    to [nav], and its [className]. *)
Record NavButton := mkNavButton
  { btn_label : string; btn_target : string; btn_class : string }.

(** The five buttons of [TopNav]. *)
Definition TopNav (route : string) : list NavButton :=
  [ mkNavButton "Home" "/"
      ("hover:underline " ++
       (if JS.strict_eq route "/" then "underline" else ""));
    mkNavButton "Builds" "/builds"
      ("hover:underline " ++
       (if JS.strict_eq route "/builds" then "underline" else ""));
    mkNavButton "Gallery" "/gallery"
      ("hover:underline " ++
       (if JS.strict_eq route "/gallery" then "underline" else ""));
    mkNavButton "Factory Documents" "/docs"
      ("hover:underline " ++
       (if JS.strict_eq route "/docs" then "underline" else ""));
    mkNavButton "Contact" "/contact"
      ("hover:underline " ++
       (if JS.strict_eq route "/contact" then "underline" else "")) ].

(** The five entries of the drop-down of [MobileMenu]. *)
Definition MobileMenu_items (route : string) : list NavButton :=
  [ mkNavButton "Home" "/"
      ("w-full text-left px-4 py-2 " ++
       (if JS.strict_eq route "/" then "bg-slate-700" else ""));
    mkNavButton "Builds" "/builds"
      ("w-full text-left px-4 py-2 " ++
       (if JS.strict_eq route "/builds" then "bg-slate-700" else ""));
    mkNavButton "Gallery" "/gallery"
      ("w-full text-left px-4 py-2 " ++
       (if JS.strict_eq route "/gallery" then "bg-slate-700" else ""));
    mkNavButton "Factory Documents" "/docs"
      ("w-full text-left px-4 py-2 " ++
       (if JS.strict_eq route "/docs" then "bg-slate-700" else ""));
    mkNavButton "Contact" "/contact"
      ("w-full text-left px-4 py-2 " ++
       (if JS.strict_eq route "/contact" then "bg-slate-700" else "")) ].

(** [{open && (<div id="mobile-menu"> ... </div>)}]. *)
Definition MobileMenu (open_ : bool) (route : string)
  : option (list NavButton) :=
  JS.and_then open_ (MobileMenu_items route).

(** The two buttons of [Hero]. *)
Definition Hero : list NavButton :=
  [ mkNavButton "See Builds" "/builds"
      "px-5 py-3 bg-amber-500 rounded shadow font-semibold";
    mkNavButton "Factory Documents" "/docs"
      "px-5 py-3 border border-white/30 rounded" ].

(** The [nav] buttons inside a view: [Hero] sits in the home view, the
    other views have none. *)
Definition view_buttons (v : View) : list NavButton :=
  match v with HomeView => Hero | _ => [] end.

(** A button of the bar carries the class [underline] of its own, an entry
    of the drop-down the class [bg-slate-700]. *)
Definition underlined (b : NavButton) : bool :=
  String.eqb (btn_class b) "hover:underline underline".

Definition shaded (b : NavButton) : bool :=
  String.eqb (btn_class b) "w-full text-left px-4 py-2 bg-slate-700".

(** The page a visitor acts on: the router in its host, and the [open]
    cell of [MobileMenu], which starts at [false] with every mount. *)
Record Page := mkPage { world : World; menu_open : bool }.

Inductive Click :=
| TopNavButton (n : nat)   (* the n-th button of the bar *)
| MenuIcon                 (* the button that opens and closes the menu *)
| MenuItem (n : nat)       (* the n-th entry of the drop-down *)
| HeroButton (n : nat)     (* the n-th nav button of the view shown *)
| Logo.                    (* <a href="#/"> *)

(** A click runs the handler of what is on the page; a click on something
    that is not there does nothing.  A state change of the menu makes React
    go over [App] without calling it; what that does to [stale] is left
    out, and the statements that count calls of [App] across a click on the
    menu give a bound there. *)
Definition click (c : Click) (p : Page) : Page :=
  match app (world p) with
  | None => p
  | Some i =>
      match c with
      | TopNavButton n =>
          match nth_error (TopNav (route i)) n with
          | Some b => mkPage (nav (btn_target b) (world p)) (menu_open p)
          | None => p
          end
      | MenuIcon => mkPage (world p) (negb (menu_open p))
      | MenuItem n =>
          match MobileMenu (menu_open p) (route i) with
          | Some items =>
              match nth_error items n with
              | Some b => mkPage (nav (btn_target b) (world p)) false
              | None => p
              end
          | None => p
          end
      | HeroButton n =>
          match nth_error (flat_map view_buttons (App_main (route i))) n with
          | Some b => mkPage (nav (btn_target b) (world p)) (menu_open p)
          | None => p
          end
      | Logo => mkPage (goto_fragment (Some "/") (world p)) (menu_open p)
      end
  end.

Inductive UIEvent :=
| Host (e : Event)
| User (c : Click).

Definition ui_step (p : Page) (e : UIEvent) : Page :=
  match e with
  | Host Mount =>
      match app (world p) with
      | Some _ => p
      | None => mkPage (mount (world p)) false
      end
  | Host ev => mkPage (step (world p) ev) (menu_open p)
  | User c => click c p
  end.

Definition ui_run (es : list UIEvent) (p : Page) : Page :=
  fold_left ui_step es p.

(** What happens inside the site: mounts, unmounts, dispatches and clicks,
    as opposed to a fragment typed in the address bar or a [nav] call made
    by other code. *)
Definition internal (e : UIEvent) : bool :=
  match e with
  | Host (Nav _) | Host (Goto _) => false
  | _ => true
  end.

(** The host events a click can amount to: [nav] to one of the five
    routes, or the link to [#/]. *)
Definition tame (ev : Event) : Prop :=
  match ev with
  | Nav to => In to KNOWN_ROUTES
  | Goto f => f = Some "/"
  | _ => True
  end.

(** The fragments that stand for the home route. *)
Definition home_alias (f : option string) : bool :=
  match f with
  | None => true
  | Some s => String.eqb s "" || String.eqb s "/"
  end.

(** The route of a mounted [App] may lag behind the fragment only while a
    [hashchange] event is waiting. *)
Definition synced (w : World) : Prop :=
  match app w with
  | Some i => route i = read_route w \/ 0 < queue w
  | None => True
  end.

(** * Properties *)

(** ** The page composer *)

Lemma App_conditions_cases (route : string) :
  let row b1 b2 b3 b4 b5 b6 :=
    [ (b1, HomeView); (b2, BuildsView); (b3, GalleryView);
      (b4, DocumentsView); (b5, ContactView); (b6, NotFoundView) ] in
  (route = "/" /\
   App_conditions route = row true false false false false false) \/
  (route = "/builds" /\
   App_conditions route = row false true false false false false) \/
  (route = "/gallery" /\
   App_conditions route = row false false true false false false) \/
  (route = "/docs" /\
   App_conditions route = row false false false true false false) \/
  (route = "/contact" /\
   App_conditions route = row false false false false true false) \/
  (~ In route KNOWN_ROUTES /\ spec_composer route = NotFoundView /\
   App_conditions route = row false false false false false true).
Proof.
  unfold App_conditions, JS.includes, JS.strict_eq, KNOWN_ROUTES,
    spec_composer.
  cbn [map existsb fst snd].
  destruct (String.eqb_spec route "/") as [E1|N1];
    [subst; left; split; reflexivity|].
  destruct (String.eqb_spec route "/builds") as [E2|N2];
    [subst; right; left; split; reflexivity|].
  destruct (String.eqb_spec route "/gallery") as [E3|N3];
    [subst; do 2 right; left; split; reflexivity|].
  destruct (String.eqb_spec route "/docs") as [E4|N4];
    [subst; do 3 right; left; split; reflexivity|].
  destruct (String.eqb_spec route "/contact") as [E5|N5];
    [subst; do 4 right; left; split; reflexivity|].
  do 5 right. split; [|split; reflexivity].
  cbn [In]. intros [H|[H|[H|[H|[H|[]]]]]]; congruence.
Qed.

Ltac by_route route :=
  destruct (App_conditions_cases route)
    as [[E H]|[[E H]|[[E H]|[[E H]|[[E H]|[E [E' H]]]]]]];
  cbv zeta in H.

Lemma App_main_spec (route : string) :
  App_main route = [spec_composer route].
Proof.
  unfold App_main, App_slots.
  by_route route; rewrite H; try (subst route; reflexivity).
  rewrite E'. reflexivity.
Qed.

Lemma spec_composer_unknown (route : string) :
  ~ In route KNOWN_ROUTES <-> spec_composer route = NotFoundView.
Proof.
  split.
  - intros Hout. by_route route; try (exfalso; apply Hout; subst; cbn; tauto).
    exact E'.
  - intros Hv Hin. cbn in Hin.
    destruct Hin as [H|[H|[H|[H|[H|[]]]]]]; subst route; discriminate.
Qed.

(** C1. Each of the five named routes selects its own view and nothing
    else; every other string, the empty one and [/unknown-page] included,
    selects the "not found" view and none of the five named views. *)
Theorem composer_selects_view :
  App_main "/" = [HomeView] /\
  App_main "/builds" = [BuildsView] /\
  App_main "/gallery" = [GalleryView] /\
  App_main "/docs" = [DocumentsView] /\
  App_main "/contact" = [ContactView] /\
  App_main "" = [NotFoundView] /\
  App_main "/unknown-page" = [NotFoundView] /\
  forall route : string,
    App_main route = [spec_composer route] /\
    (~ In route KNOWN_ROUTES <-> App_main route = [NotFoundView]).
Proof.
  repeat (split; [reflexivity|]).
  intros route. split; [apply App_main_spec|].
  rewrite App_main_spec, spec_composer_unknown.
  split; [intros ->; reflexivity|intros H; injection H; trivial].
Qed.

(** C4. For every string exactly one of the six selection conditions of
    [App] holds, so exactly one view is in the page: two conditions never
    hold together and they never all fail. *)
Theorem exactly_one_view (route : string) :
  length (App_conditions route) = 6 /\
  length (filter fst (App_conditions route)) = 1 /\
  (exists v, App_main route = [v] /\
             filter fst (App_conditions route) = [(true, v)]) /\
  (forall i j ci vi cj vj,
      nth_error (App_conditions route) i = Some (ci, vi) ->
      nth_error (App_conditions route) j = Some (cj, vj) ->
      i <> j -> ci && cj = false) /\
  existsb fst (App_conditions route) = true.
Proof.
  split; [reflexivity|].
  unfold App_main, App_slots.
  by_route route; rewrite H;
    (split; [reflexivity|]);
    (split; [eexists; split; reflexivity|]);
    (split; [|reflexivity]);
    intros i j ci vi cj vj Hi Hj Hij;
    destruct i as [|[|[|[|[|[|i]]]]]]; cbn in Hi;
      try (destruct i; discriminate); injection Hi as <- <-;
    destruct j as [|[|[|[|[|[|j]]]]]]; cbn in Hj;
      try (destruct j; discriminate); injection Hj as <- <-;
    try reflexivity; exfalso; apply Hij; reflexivity.
Qed.

(** ** Reading the route off the fragment *)

Lemma substring_whole (s : string) : String.substring 0 (String.length s) s = s.
Proof. induction s as [|c s IH]; cbn; [reflexivity|now rewrite IH]. Qed.

Lemma replace_leading_hash (f : string) : JS.replace "#" "" ("#" ++ f) = f.
Proof.
  cbn. destruct f as [|c f]; [reflexivity|].
  cbn [String.prefix String.length String.substring Nat.sub].
  cbn. now rewrite substring_whole.
Qed.

Lemma read_route_fragment (w : World) :
  read_route w = route_of_fragment (fragment w).
Proof.
  unfold read_route, location_hash, Browser.hash_getter, route_of_fragment.
  destruct (fragment w) as [s|]; [|reflexivity].
  destruct (String.eqb_spec s "") as [->|Hs]; [reflexivity|].
  rewrite replace_leading_hash.
  unfold JS.or_else, JS.truthy.
  destruct (String.eqb_spec s ""); [contradiction|reflexivity].
Qed.

Lemma route_of_fragment_nonempty (f : option string) :
  route_of_fragment f <> "".
Proof.
  destruct f as [s|]; cbn; [|discriminate].
  destruct (String.eqb_spec s ""); [discriminate|assumption].
Qed.

Lemma route_of_fragment_some (s : string) :
  s <> "" -> route_of_fragment (Some s) = s.
Proof.
  intros Hs. cbn. destruct (String.eqb_spec s ""); [contradiction|reflexivity].
Qed.

Lemma fragment_eqb_spec (a b : option string) :
  reflect (a = b) (Browser.fragment_eqb a b).
Proof.
  destruct a as [x|], b as [y|]; cbn; try (constructor; congruence).
  destruct (String.eqb_spec x y); constructor; congruence.
Qed.

Lemma mount_page_load (f : option string) (others : list nat) :
  mount (page_load f others) =
  mkWorld f (Browser.addEventListener (S (list_max others)) others) 0
          (S (S (list_max others)))
          (Some (mkInstance (route_of_fragment f) 0
                   (Some (mkEffect (S (list_max others)) useRoute_deps))
                   false)).
Proof.
  unfold mount. cbn [page_load app].
  rewrite read_route_fragment. reflexivity.
Qed.

(** C3. A store initialised on an address without fragment, or with an
    empty one, starts at route [/]; in general the initial route is the
    fragment at construction, with [/] standing in for an empty one. *)
Theorem initial_route_of_empty_fragment (others : list nat) :
  currentRoute (mount (page_load None others)) = Some "/" /\
  currentRoute (mount (page_load (Some "") others)) = Some "/" /\
  read_route (page_load (Some "") others) = "/" /\
  forall f, currentRoute (mount (page_load f others))
            = Some (route_of_fragment f).
Proof.
  repeat split; try reflexivity.
  intros f. rewrite mount_page_load. reflexivity.
Qed.

(** C5. Loaded at fragment [/docs], the page shows the documents view and
    only it, and that view lists exactly two cards: the service manual with
    size 8.2 MB, then the wiring diagrams with size 3.9 MB. *)
Theorem docs_route_lists_two_documents (others : list nat) :
  let w := mount (page_load (Some "/docs") others) in
  currentRoute w = Some "/docs" /\
  option_map App_main (currentRoute w) = Some [DocumentsView] /\
  map (fun c => (card_heading c, card_size c)) (view_doc_cards DocumentsView)
  = [ ("Factory Service Manual - 1997 XJ.pdf", "8.2 MB");
      ("Wiring Diagrams - Full.pdf", "3.9 MB") ] /\
  length (FactoryDocuments None) = 2 /\
  map card_view_href (FactoryDocuments None) = map doc_url FACTORY_DOCS.
Proof.
  cbv zeta. rewrite mount_page_load. repeat split.
Qed.

(** ** Dispatching a [hashchange] event *)

Lemma set_app_same (w : World) (a : option Instance) :
  app w = a -> set_app a w = w.
Proof. destruct w. cbn. now intros ->. Qed.

Lemma after_set_route (r : string) (i : Instance) :
  route (after_set r i) = r.
Proof.
  unfold after_set. destruct (String.eqb_spec r (route i)) as [->|_];
    [destruct (stale i)|]; reflexivity.
Qed.

Lemma after_set_effect (r : string) (i : Instance) :
  effect (after_set r i) = effect i.
Proof.
  unfold after_set. destruct (String.eqb r (route i));
    [destruct (stale i)|]; reflexivity.
Qed.

Lemma after_set_rerenders (r : string) (i : Instance) :
  rerenders (after_set r i) =
  if String.eqb r (route i)
  then (if stale i then S (rerenders i) else rerenders i)
  else S (rerenders i).
Proof.
  unfold after_set. destruct (String.eqb r (route i));
    [destruct (stale i)|]; reflexivity.
Qed.



Lemma setRoute_mounted (r : string) (w : World) (i : Instance)
    (e : EffectState) :
  app w = Some i -> effect i = Some e -> deps e = useRoute_deps ->
  setRoute r w = set_app (Some (after_set r i)) w.
Proof.
  intros Ha He Hd. unfold setRoute, after_set. rewrite Ha.
  destruct (String.eqb r (route i)).
  - destruct (stale i); [reflexivity|].
    symmetry. now apply set_app_same.
  - rewrite He. unfold commit_effect. rewrite Hd. reflexivity.
Qed.

Lemma invoke_mounted (cb : nat) (w : World) (i : Instance)
    (e : EffectState) :
  app w = Some i -> effect i = Some e -> deps e = useRoute_deps ->
  invoke cb w = if Nat.eqb cb (onHash_fn e)
                then set_app (Some (after_set (read_route w) i)) w
                else w.
Proof.
  intros Ha He Hd. unfold invoke. rewrite Ha, He.
  destruct (Nat.eqb cb (onHash_fn e)); [|reflexivity].
  unfold onHash. apply (setRoute_mounted _ w i e Ha He Hd).
Qed.

(** Listeners of other scripts leave the router alone. *)
Lemma fold_invoke_others (ls : list nat) (w : World) (i : Instance)
    (e : EffectState) :
  app w = Some i -> effect i = Some e -> ~ In (onHash_fn e) ls ->
  fold_left (fun w cb => invoke cb w) ls w = w.
Proof.
  intros Ha He. induction ls as [|cb ls IH]; intros Hout; [reflexivity|].
  cbn [fold_left]. unfold invoke at 2. rewrite Ha, He.
  destruct (Nat.eqb_spec cb (onHash_fn e)) as [E|_].
  - exfalso. apply Hout. now left.
  - apply IH. intros H. apply Hout. now right.
Qed.

Lemma fold_invoke_unmounted (ls : list nat) (w : World) :
  app w = None -> fold_left (fun w cb => invoke cb w) ls w = w.
Proof.
  intros Ha. induction ls as [|cb ls IH]; [reflexivity|].
  cbn [fold_left]. unfold invoke at 2. rewrite Ha. exact IH.
Qed.

(** Among callbacks each listed once, the [onHash] of the mounted [App] is
    called once. *)
Lemma fold_invoke_once (ls : list nat) (w : World) (i : Instance)
    (e : EffectState) :
  app w = Some i -> effect i = Some e -> deps e = useRoute_deps ->
  NoDup ls -> In (onHash_fn e) ls ->
  fold_left (fun w cb => invoke cb w) ls w
  = set_app (Some (after_set (read_route w) i)) w.
Proof.
  intros Ha He Hd. induction ls as [|cb ls IH]; intros Hnd Hin; [destruct Hin|].
  apply NoDup_cons_iff in Hnd. destruct Hnd as [Hout Hnd].
  cbn [fold_left]. rewrite (invoke_mounted cb w i e Ha He Hd).
  destruct (Nat.eqb_spec cb (onHash_fn e)) as [E|N].
  - apply (fold_invoke_others ls _ (after_set (read_route w) i) e).
    + reflexivity.
    + now rewrite after_set_effect.
    + now rewrite <- E.
  - apply IH; [exact Hnd|]. destruct Hin as [H|H]; [congruence|exact H].
Qed.

Lemma settled_registered (w : World) (i : Instance) :
  settled w -> app w = Some i ->
  queue w = 0 /\ registered w i /\ route i = read_route w.
Proof.
  intros [Hq [i0 [e [Ha0 [He [Hd [Hin Hr]]]]]]] Ha.
  assert (i0 = i) by congruence. subst i0.
  split; [exact Hq|]. split; [|exact Hr].
  split; [exact Ha|]. now exists e.
Qed.

Lemma registered_settled (w : World) (i : Instance) :
  registered w i -> queue w = 0 -> route i = read_route w -> settled w.
Proof.
  intros [Ha [e [He [Hd Hin]]]] Hq Hr.
  split; [exact Hq|]. now exists i, e.
Qed.

Lemma registered_after_set (w v : World) (i : Instance) (r : string) :
  registered w i -> listeners v = listeners w ->
  registered (set_app (Some (after_set r i)) v) (after_set r i).
Proof.
  intros [Ha [e [He [Hd Hin]]]] Hl.
  split; [reflexivity|]. exists e. rewrite after_set_effect.
  repeat split; try assumption. cbn. now rewrite Hl.
Qed.

(** With [App] mounted and registered, a dispatch is one [setRoute] with
    the route of the fragment. *)
Lemma dispatch_registered (w : World) (i : Instance) (q : nat) :
  registered w i -> queue w = S q ->
  dispatch_hashchange w
  = set_app (Some (after_set (read_route w) i)) (set_queue q w).
Proof.
  intros [Ha [e [He [Hd Hin]]]] Hq. unfold dispatch_hashchange. rewrite Hq.
  apply (fold_invoke_once _ (set_queue q w) i e Ha He Hd).
  - apply NoDup_nodup.
  - now apply nodup_In.
Qed.

Lemma dispatch_nothing_queued (w : World) :
  queue w = 0 -> dispatch_hashchange w = w.
Proof. intros H. unfold dispatch_hashchange. now rewrite H. Qed.


(** ** Navigation *)

Lemma settled_mount_page_load (f : option string) :
  settled (mount (page_load f [])).
Proof.
  rewrite mount_page_load. split; [reflexivity|].
  do 2 eexists. cbn [app effect deps onHash_fn listeners route].
  repeat split; [now left|].
  rewrite read_route_fragment. reflexivity.
Qed.

Lemma stored_verbatim_fragment (target : string) :
  stored_verbatim target = true ->
  Browser.hash_setter_fragment target = Some target.
Proof.
  unfold stored_verbatim. intros H.
  now destruct (fragment_eqb_spec (Browser.hash_setter_fragment target)
                                  (Some target)).
Qed.

(** [nav] with a non-empty target stored as given is the change of the
    fragment to that target. *)
Lemma nav_verbatim (t : string) (w : World) :
  stored_verbatim t = true -> t <> "" ->
  nav t w = goto_fragment (Some t) w.
Proof.
  intros Hv Hne. unfold nav, set_location_hash, goto_fragment.
  rewrite (stored_verbatim_fragment t Hv).
  destruct (fragment w) as [s|]; [reflexivity|].
  cbn. now destruct (String.eqb_spec t "").
Qed.

Lemma goto_fragment_cases (f : option string) (w : World) :
  (f = fragment w /\ goto_fragment f w = w) \/
  (f <> fragment w /\
   goto_fragment f w = set_queue (S (queue w)) (set_fragment f w)).
Proof.
  unfold goto_fragment.
  destruct (fragment_eqb_spec f (fragment w)); [left|right]; now split.
Qed.

(** The event queued by a change of the fragment, dispatched to an [App]
    at rest: one [setRoute] with the route of the new fragment, and the
    [App] is at rest again. *)
Lemma change_from_rest (w : World) (i : Instance) (f : option string) :
  settled w -> app w = Some i -> f <> fragment w ->
  goto_fragment f w = set_queue 1 (set_fragment f w) /\
  dispatch_hashchange (goto_fragment f w)
  = set_app (Some (after_set (route_of_fragment f) i))
            (set_queue 0 (set_fragment f w)) /\
  settled (dispatch_hashchange (goto_fragment f w)).
Proof.
  intros Hs Ha Hf.
  destruct (settled_registered w i Hs Ha) as [Hq [Hreg Hr]].
  destruct (goto_fragment_cases f w) as [[E _]|[_ Hgo]]; [contradiction|].
  rewrite Hq in Hgo. split; [exact Hgo|].
  assert (Hreg1 : registered (set_queue 1 (set_fragment f w)) i).
  { destruct Hreg as [_ [e He]]. split; [exact Ha|]. now exists e. }
  assert (Hd : dispatch_hashchange (goto_fragment f w)
               = set_app (Some (after_set (route_of_fragment f) i))
                         (set_queue 0 (set_fragment f w))).
  { rewrite Hgo, (dispatch_registered _ i 0 Hreg1 eq_refl).
    now rewrite read_route_fragment. }
  split; [exact Hd|]. rewrite Hd.
  apply (registered_settled _ (after_set (route_of_fragment f) i)).
  - now apply (registered_after_set w).
  - reflexivity.
  - now rewrite after_set_route, read_route_fragment.
Qed.

Lemma currentRoute_after_set (r : string) (i : Instance) (v : World) :
  currentRoute (set_app (Some (after_set r i)) v) = Some r.
Proof. unfold currentRoute. cbn. now rewrite after_set_route. Qed.

Lemma notifications_after_set (r : string) (i : Instance) (v : World) :
  notifications (set_app (Some (after_set r i)) v) =
  if String.eqb r (route i)
  then (if stale i then S (rerenders i) else rerenders i)
  else S (rerenders i).
Proof. unfold notifications. cbn. apply after_set_rerenders. Qed.

(** A change of fragment and its dispatch, from rest to rest. *)
Lemma goto_from_rest (w : World) (i : Instance) (f : option string) :
  settled w -> app w = Some i ->
  app (goto_fragment f w) = Some i /\
  settled (dispatch_hashchange (goto_fragment f w)) /\
  currentRoute (dispatch_hashchange (goto_fragment f w))
  = Some (route_of_fragment f) /\
  fragment (dispatch_hashchange (goto_fragment f w)) = f /\
  listeners (dispatch_hashchange (goto_fragment f w)) = listeners w /\
  queue (dispatch_hashchange (goto_fragment f w)) = 0 /\
  notifications (dispatch_hashchange (goto_fragment f w)) =
  (if Browser.fragment_eqb f (fragment w) then notifications w
   else if String.eqb (route_of_fragment f) (route i)
        then (if stale i then S (notifications w) else notifications w)
        else S (notifications w)).
Proof.
  intros Hs Ha.
  destruct (settled_registered w i Hs Ha) as [Hq [_ Hr]].
  assert (Hn : notifications w = rerenders i)
    by (unfold notifications; now rewrite Ha).
  destruct (fragment_eqb_spec f (fragment w)) as [E|N].
  - destruct (goto_fragment_cases f w) as [[_ ->]|[N _]]; [|contradiction].
    rewrite (dispatch_nothing_queued w Hq).
    split; [exact Ha|]. split; [exact Hs|].
    unfold currentRoute. rewrite Ha. cbn.
    rewrite Hr, read_route_fragment, E. now repeat split.
  - destruct (change_from_rest w i f Hs Ha N) as [Hgo [Hd Hs']].
    split; [now rewrite Hgo|]. split; [exact Hs'|].
    rewrite Hd, currentRoute_after_set, notifications_after_set, Hn.
    now repeat split.
Qed.

(** [nav] to a non-empty target stored as given, and its dispatch. *)
Lemma nav_from_rest (w : World) (i : Instance) (t : string) :
  settled w -> app w = Some i -> stored_verbatim t = true -> t <> "" ->
  currentRoute (nav t w) = Some (route i) /\
  settled (dispatch_hashchange (nav t w)) /\
  currentRoute (dispatch_hashchange (nav t w)) = Some t /\
  fragment (dispatch_hashchange (nav t w)) = Some t /\
  listeners (dispatch_hashchange (nav t w)) = listeners w /\
  queue (dispatch_hashchange (nav t w)) = 0 /\
  notifications (dispatch_hashchange (nav t w)) =
  (if Browser.fragment_eqb (Some t) (fragment w) then notifications w
   else if String.eqb t (route i)
        then (if stale i then S (notifications w) else notifications w)
        else S (notifications w)).
Proof.
  intros Hs Ha Hv Hne. rewrite (nav_verbatim t w Hv Hne).
  destruct (goto_from_rest w i (Some t) Hs Ha) as [Ha' H].
  rewrite (route_of_fragment_some t Hne) in H.
  split; [|exact H]. unfold currentRoute. now rewrite Ha'.
Qed.

Lemma settled_route (w : World) (i : Instance) :
  settled w -> app w = Some i ->
  currentRoute w = Some (route i) /\
  route i = route_of_fragment (fragment w) /\
  notifications w = rerenders i /\
  stale_app w = stale i.
Proof.
  intros Hs Ha. destruct (settled_registered w i Hs Ha) as [_ [_ Hr]].
  unfold currentRoute, notifications, stale_app. rewrite Ha. cbn.
  repeat split. now rewrite Hr, read_route_fragment.
Qed.

Lemma settled_mounted (w : World) :
  settled w -> exists i, app w = Some i.
Proof. intros [_ [i [e [Ha _]]]]. now exists i. Qed.

Lemma nav_new_route (w : World) (target : string) :
  settled w -> stored_verbatim target = true -> target <> "" ->
  currentRoute w <> Some target ->
  queue (nav target w) = 1 /\
  currentRoute (dispatch_hashchange (nav target w)) = Some target /\
  notifications (dispatch_hashchange (nav target w)) = S (notifications w) /\
  queue (dispatch_hashchange (nav target w)) = 0.
Proof.
  intros Hs Hv Hne Hneq.
  destruct (settled_mounted w Hs) as [i Ha].
  destruct (settled_route w i Hs Ha) as [Hc [Hr _]].
  assert (Hti : target <> route i) by (intros E; apply Hneq; congruence).
  assert (Hf : Some target <> fragment w).
  { intros E. apply Hti. rewrite Hr, <- E.
    symmetry. now apply route_of_fragment_some. }
  destruct (nav_from_rest w i target Hs Ha Hv Hne)
    as [_ [_ [H2 [_ [_ [H5 H6]]]]]].
  destruct (fragment_eqb_spec (Some target) (fragment w)); [contradiction|].
  destruct (String.eqb_spec target (route i)); [contradiction|].
  split; [|now repeat split].
  rewrite (nav_verbatim target w Hv Hne).
  destruct (change_from_rest w i (Some target) Hs Ha Hf) as [-> _].
  reflexivity.
Qed.





(** The setter of [location.hash] does not always store what it is given:
    a leading [#] is dropped and a space is percent-encoded, so [nav] with
    such a target ends on another route than the target. *)
Example nav_rewrites_target :
  let w := mount (page_load (Some "#a") []) in
  currentRoute w = Some "#a" /\
  currentRoute (dispatch_hashchange (nav "#a" w)) = Some "a" /\
  notifications (dispatch_hashchange (nav "#a" w)) = 1 /\
  currentRoute (dispatch_hashchange (nav "/a b" w)) = Some "/a%20b" /\
  stored_verbatim "#a" = false /\
  stored_verbatim "/a b" = false /\
  stored_verbatim "/unknown-page" = true /\
  forallb stored_verbatim KNOWN_ROUTES = true.
Proof. repeat split. Qed.

(** On an address without fragment, [nav ""] and [nav "#"] change nothing
    and queue nothing; on an address with a fragment they empty it. *)
Example nav_empty_on_bare_address :
  let w := mount (page_load None []) in
  let v := mount (page_load (Some "/docs") []) in
  nav "" w = w /\ nav "#" w = w /\
  fragment (nav "" v) = Some "" /\ queue (nav "" v) = 1 /\
  fragment (nav "#" v) = Some "" /\ queue (nav "#" v) = 1.
Proof. repeat split. Qed.

(** Two [nav] calls before any dispatch queue two events.  The first
    dispatch already reads the last fragment and [App] is called for the
    new route; the second finds the route in place, and React calls [App]
    once more before it drops the set; a third would call nothing.  The
    statements of this section start from an [App] at rest for that
    reason. *)
Example queued_changes_coalesce :
  let w := mount (page_load None []) in
  let w2 := nav "/contact" (nav "/gallery" (nav "/builds" w)) in
  queue w2 = 3 /\
  currentRoute (dispatch_hashchange w2) = Some "/contact" /\
  notifications (dispatch_hashchange w2) = 1 /\
  notifications (dispatch_hashchange (dispatch_hashchange w2)) = 2 /\
  notifications
    (dispatch_hashchange (dispatch_hashchange (dispatch_hashchange w2))) = 2.
Proof. vm_compute. repeat split. Qed.

(** C6. From a mounted [App] at rest on any other route, [nav "/gallery"]
    queues one event; once it is dispatched [App] has rendered exactly once
    more, the route is [/gallery], the page shows the gallery view and only
    it, and that view holds exactly three figures. *)
Theorem navigate_to_gallery (w : World) :
  settled w ->
  currentRoute w <> Some "/gallery" ->
  let w' := dispatch_hashchange (nav "/gallery" w) in
  queue (nav "/gallery" w) = 1 /\
  notifications w' = S (notifications w) /\
  queue w' = 0 /\
  currentRoute w' = Some "/gallery" /\
  option_map App_main (currentRoute w') = Some [GalleryView] /\
  length (view_figures GalleryView) = 3 /\
  map fig_caption GalleryPage
  = ["1968 AMX swap fitment"; "Roll cage mockup"; "Trail ready XJ"].
Proof.
  intros Hs Hneq w'. subst w'.
  destruct (nav_new_route w "/gallery" Hs eq_refl ltac:(discriminate) Hneq)
    as [Hq [Hr [Hn Hq']]].
  rewrite Hr. repeat split; assumption.
Qed.

(** The [App] loaded on a bare address shows the home view; one click on
    "Gallery" later it shows the gallery. *)
Lemma navigate_to_gallery_witness :
  let w := mount (page_load None []) in
  currentRoute w = Some "/" /\
  notifications (dispatch_hashchange (nav "/gallery" w)) = 1 /\
  option_map App_main (currentRoute (dispatch_hashchange (nav "/gallery" w)))
  = Some [GalleryView].
Proof.
  intros w.
  destruct (navigate_to_gallery w (settled_mount_page_load None)
              ltac:(discriminate))
    as [_ [Hn [_ [_ [Hv _]]]]].
  split; [reflexivity|]. split; [exact Hn|exact Hv].
Defined.

(** C7. The composer is defined on every string: the page always holds
    exactly one view, the "not found" one for every string outside the
    five routes.  The store takes every fragment: at load and after any
    change of the fragment the route is the fragment itself, or [/] for an
    empty one, and the composer has a view for it. *)
Theorem composer_total_store_accepts_all :
  (forall route, exists v, App_main route = [v]) /\
  (forall route, ~ In route KNOWN_ROUTES -> App_main route = [NotFoundView]) /\
  (forall f others,
      currentRoute (mount (page_load f others)) = Some (route_of_fragment f)) /\
  (forall s, s <> "" -> route_of_fragment (Some s) = s) /\
  (forall w f,
      settled w ->
      currentRoute (dispatch_hashchange (goto_fragment f w))
      = Some (route_of_fragment f) /\
      App_main (route_of_fragment f) = [spec_composer (route_of_fragment f)]).
Proof.
  split; [intros route; eexists; apply App_main_spec|].
  split.
  { intros route Hout. rewrite App_main_spec.
    now rewrite (proj1 (spec_composer_unknown route) Hout). }
  split; [intros f others; now rewrite mount_page_load|].
  split; [exact route_of_fragment_some|].
  intros w f Hs. split; [|apply App_main_spec].
  destruct (settled_mounted w Hs) as [i Ha].
  now destruct (goto_from_rest w i f Hs Ha) as [_ [_ [Hr _]]].
Qed.

(** ** The subscription and the route over whole runs *)

Lemma addEventListener_fresh (cb : nat) (ls : list nat) :
  (forall l, In l ls -> l < cb) -> Browser.addEventListener cb ls = ls ++ [cb].
Proof.
  intros Hlt. unfold Browser.addEventListener.
  destruct (existsb (Nat.eqb cb) ls) eqn:Hex; [|reflexivity].
  apply existsb_exists in Hex. destruct Hex as [l [Hin Heq]].
  apply Nat.eqb_eq in Heq. subst l. specialize (Hlt cb Hin). lia.
Qed.

Lemma removeEventListener_last (cb : nat) (ls : list nat) :
  ~ In cb ls -> Browser.removeEventListener cb (ls ++ [cb]) = ls.
Proof.
  induction ls as [|l ls IH]; intros Hout; cbn.
  - now rewrite Nat.eqb_refl.
  - destruct (Nat.eqb_spec cb l) as [E|_].
    + exfalso. apply Hout. now left.
    + f_equal. apply IH. intros H. apply Hout. now right.
Qed.

(** Whatever the listeners called, a dispatch leaves the page as it was
    apart from the hook state of [App], whose effect is kept and whose route
    is the old one or the one of the fragment. *)
Lemma fold_invoke_shape (ls : list nat) (w : World) (i : Instance)
    (e : EffectState) :
  app w = Some i -> effect i = Some e -> deps e = useRoute_deps ->
  exists i',
    fold_left (fun w cb => invoke cb w) ls w = set_app (Some i') w /\
    effect i' = Some e /\
    (route i' = route i \/ route i' = read_route w).
Proof.
  revert w i. induction ls as [|cb ls IH]; intros w i Ha He Hd.
  - exists i. cbn. rewrite (set_app_same w _ Ha). auto.
  - cbn [fold_left]. rewrite (invoke_mounted cb w i e Ha He Hd).
    destruct (Nat.eqb cb (onHash_fn e)); [|now apply IH].
    destruct (IH (set_app (Some (after_set (read_route w) i)) w)
                 (after_set (read_route w) i) eq_refl)
      as [i' [Hf [He' Hr']]];
      [now rewrite after_set_effect|exact Hd|].
    exists i'. rewrite Hf. split; [reflexivity|]. split; [exact He'|].
    right. rewrite after_set_route in Hr'. destruct Hr' as [Hr'|Hr']; exact Hr'.
Qed.

Lemma dispatch_shape (w : World) (i : Instance) (e : EffectState) :
  app w = Some i -> effect i = Some e -> deps e = useRoute_deps ->
  exists i',
    app (dispatch_hashchange w) = Some i' /\
    effect i' = Some e /\
    (route i' = route i \/ route i' = read_route w) /\
    listeners (dispatch_hashchange w) = listeners w /\
    next_fn (dispatch_hashchange w) = next_fn w /\
    fragment (dispatch_hashchange w) = fragment w.
Proof.
  intros Ha He Hd. unfold dispatch_hashchange.
  destruct (queue w) as [|q].
  - exists i. auto 10.
  - destruct (fold_invoke_shape (nodup Nat.eq_dec (listeners w))
                (set_queue q w) i e Ha He Hd)
      as [i' [Hf [He' Hr']]].
    exists i'. rewrite Hf. cbn. auto 10.
Qed.

Lemma read_route_nonempty (w : World) : read_route w <> "".
Proof. rewrite read_route_fragment. apply route_of_fragment_nonempty. Qed.

Lemma subscribed_page_load (f : option string) (others : list nat) :
  subscribed others (page_load f others).
Proof.
  split; [|reflexivity]. cbn. intros cb Hin.
  assert (H : Forall (fun k => k <= list_max others) others)
    by now apply list_max_le.
  rewrite Forall_forall in H. specialize (H cb Hin). lia.
Qed.

Lemma set_location_hash_cases (value : string) (w : World) :
  set_location_hash value w = w \/
  set_location_hash value w
  = set_queue (S (queue w))
              (set_fragment (Browser.hash_setter_fragment value) w).
Proof.
  unfold set_location_hash. destruct (Browser.fragment_eqb _ _); auto.
Qed.

Lemma subscribed_step (others : list nat) (w : World) (ev : Event) :
  subscribed others w -> subscribed others (step w ev).
Proof.
  intros [Hlt Happ]. destruct ev as [| |to|f|]; cbn [step].
  - (* Mount *)
    unfold mount. destruct (app w) as [i|] eqn:Ha.
    + split; [exact Hlt|]. now rewrite Ha.
    + cbn. rewrite (addEventListener_fresh _ _ Hlt). rewrite Happ in *.
      split.
      * intros cb Hin. apply in_app_or in Hin.
        destruct Hin as [Hin|[<-|[]]]; [specialize (Hlt cb Hin)|];
          cbn [next_fn set_app set_listeners set_next_fn]; lia.
      * exists (next_fn w). repeat split.
        -- intros Hin. specialize (Hlt _ Hin). lia.
        -- apply read_route_nonempty.
  - (* Unmount *)
    unfold unmount. destruct (app w) as [i|] eqn:Ha.
    + destruct Happ as [h [He [Hl [Hout _]]]]. rewrite He.
      unfold subscribed, effect_cleanup.
      cbn [app listeners next_fn set_app set_listeners onHash_fn].
      rewrite Hl, (removeEventListener_last h others Hout).
      split; [|reflexivity].
      intros cb Hin. apply Hlt. rewrite Hl. apply in_or_app. now left.
    + split; [exact Hlt|]. now rewrite Ha.
  - (* Nav *)
    unfold nav.
    destruct (set_location_hash_cases to w) as [-> | ->]; split; assumption.
  - (* Goto *)
    unfold goto_fragment.
    destruct (Browser.fragment_eqb _ _); split; assumption.
  - (* Dispatch *)
    destruct (app w) as [i|] eqn:Ha.
    + destruct Happ as [h [He [Hl [Hout Hne]]]].
      destruct (dispatch_shape w i _ Ha He eq_refl)
        as [i' [Ha' [He' [Hr' [Hl' [Hn' _]]]]]].
      split.
      * rewrite Hl', Hn'. exact Hlt.
      * rewrite Ha'. exists h. rewrite Hl'. repeat split; try assumption.
        destruct Hr' as [-> | ->]; [exact Hne|apply read_route_nonempty].
    + unfold dispatch_hashchange. destruct (queue w) as [|q].
      * split; [exact Hlt|now rewrite Ha].
      * rewrite (fold_invoke_unmounted _ (set_queue q w) Ha).
        split; [exact Hlt|cbn [app set_queue]; now rewrite Ha].
Qed.

Lemma subscribed_run (others : list nat) (es : list Event) (w : World) :
  subscribed others w -> subscribed others (run es w).
Proof.
  revert w. induction es as [|ev es IH]; intros w Hw; [exact Hw|].
  cbn. apply IH. now apply subscribed_step.
Qed.

(** C8. At every point of every run from a freshly loaded page:
    - while [App] is mounted, [window] holds the listeners of the other
      scripts followed by the one [onHash] of the effect, exactly once;
    - while it is not, [window] holds the listeners of the other scripts
      only;
    - mounting adds one new function and nothing else;
    - no later event but the unmount touches the listeners or replaces the
      effect, so the subscription is taken once;
    - unmounting removes that very function: the listeners are again those
      of the other scripts. *)
Theorem subscription_scoped (f : option string) (others : list nat)
    (es : list Event) :
  let w := run es (page_load f others) in
  (forall i, app w = Some i ->
     exists h, effect i = Some (mkEffect h useRoute_deps) /\
               listeners w = others ++ [h] /\
               ~ In h others /\
               count_occ Nat.eq_dec (listeners w) h = 1) /\
  (app w = None -> listeners w = others) /\
  (app w = None ->
     listeners (mount w) = others ++ [next_fn w] /\
     ~ In (next_fn w) others /\
     option_map effect (app (mount w))
     = Some (Some (mkEffect (next_fn w) useRoute_deps))) /\
  (forall i ev, app w = Some i -> ev <> Unmount ->
     listeners (step w ev) = listeners w /\
     option_map effect (app (step w ev)) = Some (effect i)) /\
  listeners (unmount w) = others /\
  app (unmount w) = None.
Proof.
  intros w.
  assert (Hw : subscribed others w)
    by (apply subscribed_run, subscribed_page_load).
  assert (Hu : subscribed others (unmount w))
    by (apply (subscribed_step others w Unmount Hw)).
  assert (Hnone : app (unmount w) = None)
    by (unfold unmount; destruct (app w) eqn:E; [reflexivity|exact E]).
  destruct Hw as [Hlt Happ].
  split; [|split; [|split; [|split; [|split]]]].
  - intros i Ha. rewrite Ha in Happ.
    destruct Happ as [h [He [Hl [Hout _]]]].
    exists h. repeat split; try assumption.
    rewrite Hl, count_occ_app, (proj1 (count_occ_not_In _ _ _) Hout).
    cbn. now destruct (Nat.eq_dec h h).
  - intros Ha. now rewrite Ha in Happ.
  - intros Ha. rewrite Ha in Happ.
    unfold mount. rewrite Ha. cbn.
    rewrite (addEventListener_fresh _ _ Hlt), Happ.
    repeat split. intros Hin. rewrite <- Happ in Hin.
    specialize (Hlt _ Hin). lia.
  - intros i ev Ha Hev. rewrite Ha in Happ.
    destruct Happ as [h [He [Hl [Hout _]]]].
    destruct ev as [| |to|g|]; cbn [step].
    + unfold mount. rewrite Ha. now rewrite Ha.
    + contradiction.
    + unfold nav.
      destruct (set_location_hash_cases to w) as [-> | ->];
        cbn; now rewrite Ha.
    + unfold goto_fragment.
      destruct (Browser.fragment_eqb _ _); cbn; now rewrite Ha.
    + destruct (dispatch_shape w i _ Ha He eq_refl)
        as [i' [Ha' [He' [_ [Hl' _]]]]].
      rewrite Ha', Hl', He. cbn. now rewrite He'.
  - destruct Hu as [_ Hu]. now rewrite Hnone in Hu.
  - exact Hnone.
Qed.

(** C10. In every state reached from a page load by mounts, unmounts,
    [nav] calls, fragment changes and dispatches, the route of the mounted
    [App] is not the empty string; the expression both the initial state
    and [onHash] evaluate never yields it. *)
Theorem route_never_empty (w : World) :
  reachable w ->
  currentRoute w <> Some "" /\
  (forall r, currentRoute w = Some r -> JS.truthy r = true) /\
  read_route w <> "".
Proof.
  intros [f [others [es ->]]].
  assert (Hw : subscribed others (run es (page_load f others)))
    by (apply subscribed_run, subscribed_page_load).
  destruct Hw as [_ Happ]. unfold currentRoute.
  destruct (app (run es (page_load f others))) as [i|].
  - destruct Happ as [h [_ [_ [_ Hne]]]]. cbn.
    split; [congruence|]. split; [|apply read_route_nonempty].
    intros r [= <-]. unfold JS.truthy.
    now destruct (String.eqb_spec (route i) "").
  - cbn. split; [discriminate|]. split; [discriminate|].
    apply read_route_nonempty.
Qed.

Lemma route_never_empty_witness :
  let w := run [Mount; Nav ""; Dispatch; Goto None; Dispatch]
               (page_load (Some "/builds") []) in
  currentRoute w = Some "/" /\ currentRoute w <> Some "".
Proof.
  intros w. split; [reflexivity|].
  apply (route_never_empty w).
  exists (Some "/builds"), [], [Mount; Nav ""; Dispatch; Goto None; Dispatch].
  reflexivity.
Defined.

(** ** The contact form *)

(** C9. A click on "Send" never sends the form and never changes the page
    state: with a field missing the browser reports it and the handler does
    not run; with the three fields present (and an address the browser
    accepts) the handler runs, prevents the default action and shows an
    alert, whatever the fields hold. *)
Theorem contact_submit_discards (email_ok : string -> bool)
    (f : ContactForm) (w : World) :
  fst (submit_form email_ok f w) = w /\
  existsb is_SendForm (snd (submit_form email_ok f w)) = false /\
  handler_ran (snd (submit_form email_ok f w)) = form_valid email_ok f /\
  (handler_ran (snd (submit_form email_ok f w)) = true ->
   your_name f <> "" /\ your_email f <> "" /\ message f <> "") /\
  (your_name f = "" \/ your_email f = "" \/ message f = "" ->
   snd (submit_form email_ok f w) = [ReportValidity]) /\
  (form_valid email_ok f = true ->
   snd (submit_form email_ok f w)
   = [PreventDefault; Alert "Replace this handler with a real endpoint"]) /\
  currentRoute (fst (submit_form email_ok f w)) = currentRoute w.
Proof.
  unfold submit_form, form_valid, JS.truthy, handler_ran.
  destruct (String.eqb_spec (your_name f) "") as [En|Nn];
  destruct (String.eqb_spec (your_email f) "") as [Ee|Ne];
  destruct (String.eqb_spec (message f) "") as [Em|Nm];
  destruct (email_ok (your_email f)); cbn;
    repeat split; try reflexivity; try discriminate; try assumption;
    try (intros [H|[H|H]]; contradiction).
Qed.

(** * Further properties of the router *)

(** ** The route follows the fragment *)

Lemma read_route_same_fragment (w v : World) :
  fragment v = fragment w -> read_route v = read_route w.
Proof. intros H. now rewrite !read_route_fragment, H. Qed.

Lemma subscribed_registered (others : list nat) (w : World) (i : Instance) :
  subscribed others w -> app w = Some i -> registered w i.
Proof.
  intros [_ Happ] Ha. rewrite Ha in Happ. destruct Happ as [h [He [Hl _]]].
  split; [exact Ha|]. exists (mkEffect h useRoute_deps).
  repeat split; [exact He|].
  cbn. rewrite Hl. apply in_or_app. right. now left.
Qed.

Lemma synced_step (others : list nat) (w : World) (ev : Event) :
  subscribed others w -> synced w -> synced (step w ev).
Proof.
  intros Hsub Hs. unfold synced in *. destruct ev as [| |to|f|]; cbn [step].
  - unfold mount. destruct (app w) as [i|] eqn:Ha.
    + now rewrite Ha.
    + cbn. left. now apply read_route_same_fragment.
  - unfold unmount. destruct (app w) eqn:Ha; [exact I|now rewrite Ha].
  - unfold nav.
    destruct (set_location_hash_cases to w) as [-> | ->]; [exact Hs|].
    cbn. destruct (app w); [right; lia|exact I].
  - unfold goto_fragment.
    destruct (Browser.fragment_eqb _ _); [exact Hs|].
    cbn. destruct (app w); [right; lia|exact I].
  - destruct (app w) as [i|] eqn:Ha.
    + destruct (queue w) as [|q] eqn:Hq.
      * rewrite (dispatch_nothing_queued w Hq), Ha, Hq. exact Hs.
      * rewrite (dispatch_registered w i q
                   (subscribed_registered others w i Hsub Ha) Hq).
        cbn [app set_app]. left. now rewrite after_set_route.
    + unfold dispatch_hashchange. destruct (queue w) as [|q].
      * now rewrite Ha.
      * rewrite (fold_invoke_unmounted _ (set_queue q w) Ha).
        cbn. now rewrite Ha.
Qed.

Lemma reachable_invariants (w : World) :
  reachable w -> exists others, subscribed others w /\ synced w.
Proof.
  intros [f [others [es ->]]]. exists others.
  assert (H0 : subscribed others (page_load f others) /\
               synced (page_load f others))
    by (split; [apply subscribed_page_load|exact I]).
  revert H0. generalize (page_load f others).
  induction es as [|ev es IH]; intros w [Hsub Hs]; [now split|].
  cbn. apply IH. split; [now apply subscribed_step|now apply (synced_step others)].
Qed.

(** X1. In every state reached from a page load, a mounted [App] with no
    [hashchange] event waiting is at rest: its route is the one the current
    fragment gives and its [onHash] is registered. *)
Theorem idle_app_shows_fragment (w : World) :
  reachable w -> queue w = 0 -> app w <> None ->
  settled w /\ currentRoute w = Some (route_of_fragment (fragment w)).
Proof.
  intros Hr Hq Hm. destruct (reachable_invariants w Hr) as [others [Hsub Hs]].
  unfold synced in Hs. destruct (app w) as [i|] eqn:Ha; [|contradiction].
  destruct Hs as [Hs|Hs]; [|lia].
  split.
  - apply (registered_settled w i); try assumption.
    now apply (subscribed_registered others).
  - unfold currentRoute. rewrite Ha. cbn. now rewrite Hs, read_route_fragment.
Qed.

Lemma idle_app_shows_fragment_witness :
  let w := run [Goto (Some "/docs"); Mount; Nav "/gallery"; Nav "/a b";
                Dispatch; Dispatch; Dispatch]
               (page_load None [4; 2]) in
  settled w /\ currentRoute w = Some "/a%20b".
Proof.
  intros w.
  assert (Hr : reachable w).
  { exists None, [4; 2],
      [Goto (Some "/docs"); Mount; Nav "/gallery"; Nav "/a b";
       Dispatch; Dispatch; Dispatch].
    reflexivity. }
  assert (Hq : queue w = 0) by (vm_compute; reflexivity).
  assert (Hm : app w <> None) by (vm_compute; discriminate).
  destruct (idle_app_shows_fragment w Hr Hq Hm) as [Hs _].
  split; [exact Hs|]. vm_compute. reflexivity.
Defined.





(** ** Which address shows which page *)

(** ** Which address shows which page *)

Lemma home_alias_route (f : option string) :
  route_of_fragment f = "/" <-> home_alias f = true.
Proof.
  destruct f as [s|]; cbn; [|tauto].
  destruct (String.eqb_spec s "") as [->|Hs]; cbn; [tauto|].
  now rewrite String.eqb_eq.
Qed.

Lemma not_alias_route (f : option string) :
  home_alias f = false -> f = Some (route_of_fragment f).
Proof.
  destruct f as [s|]; cbn; [|discriminate].
  destruct (String.eqb_spec s ""); cbn; [discriminate|reflexivity].
Qed.

Lemma route_is (f : option string) (s : string) :
  s <> "" -> s <> "/" -> (route_of_fragment f = s <-> f = Some s).
Proof.
  intros Hne Hnh. split.
  - intros H. destruct (home_alias f) eqn:Ha.
    + apply home_alias_route in Ha. congruence.
    + apply not_alias_route in Ha. congruence.
  - intros ->. now apply route_of_fragment_some.
Qed.

(** X3. Two fragments give the same route only when they are equal or
    both stand for home (no fragment, the empty one, or [/]); in
    particular the route is [/] exactly for those three. *)
Theorem routes_collide_only_at_home :
  (forall w, read_route w = "/" <-> home_alias (fragment w) = true) /\
  (forall w1 w2,
      read_route w1 = read_route w2 <->
      fragment w1 = fragment w2 \/
      (home_alias (fragment w1) = true /\ home_alias (fragment w2) = true)).
Proof.
  split.
  - intros w. rewrite read_route_fragment. apply home_alias_route.
  - intros w1 w2. rewrite !read_route_fragment. split.
    + intros H.
      destruct (home_alias (fragment w1)) eqn:H1,
               (home_alias (fragment w2)) eqn:H2.
      * right. now split.
      * apply home_alias_route in H1. rewrite H1 in H.
        symmetry in H. apply home_alias_route in H. congruence.
      * apply home_alias_route in H2. rewrite H2 in H.
        apply home_alias_route in H. congruence.
      * left. rewrite (not_alias_route _ H1), (not_alias_route _ H2).
        now rewrite H.
    + intros [H|[H1 H2]]; [now rewrite H|].
      apply home_alias_route in H1, H2. congruence.
Qed.

Lemma spec_composer_eq (r : string) :
  (spec_composer r = HomeView <-> r = "/") /\
  (spec_composer r = BuildsView <-> r = "/builds") /\
  (spec_composer r = GalleryView <-> r = "/gallery") /\
  (spec_composer r = DocumentsView <-> r = "/docs") /\
  (spec_composer r = ContactView <-> r = "/contact").
Proof.
  by_route r; try (subst r; cbn; repeat split; congruence).
  rewrite E'. repeat split; try discriminate;
    intros ->; exfalso; apply E; cbn; tauto.
Qed.

(** X4. What a freshly loaded page shows, by the fragment of its address:
    home without fragment, with the empty one and with [/]; each other
    named view for its own fragment and no other; "not found" for every
    remaining fragment. *)
Theorem deep_link_view (f : option string) (others : list nat) :
  let shown :=
    option_map App_main (currentRoute (mount (page_load f others))) in
  (shown = Some [HomeView] <-> home_alias f = true) /\
  (shown = Some [BuildsView] <-> f = Some "/builds") /\
  (shown = Some [GalleryView] <-> f = Some "/gallery") /\
  (shown = Some [DocumentsView] <-> f = Some "/docs") /\
  (shown = Some [ContactView] <-> f = Some "/contact") /\
  (shown = Some [NotFoundView] <->
   home_alias f = false /\
   f <> Some "/builds" /\ f <> Some "/gallery" /\
   f <> Some "/docs" /\ f <> Some "/contact").
Proof.
  intros shown.
  assert (Hshown : shown = Some [spec_composer (route_of_fragment f)]).
  { subst shown. rewrite mount_page_load.
    unfold currentRoute. cbn [app option_map route].
    now rewrite App_main_spec. }
  assert (Hinj : forall v, shown = Some [v] <->
                           spec_composer (route_of_fragment f) = v).
  { intros v. rewrite Hshown. split; [now intros [= ->]|now intros ->]. }
  destruct (spec_composer_eq (route_of_fragment f))
    as [Hh [Hb [Hg [Hd Hc]]]].
  pose proof (route_is f "/builds" ltac:(discriminate) ltac:(discriminate))
    as Rb.
  pose proof (route_is f "/gallery" ltac:(discriminate) ltac:(discriminate))
    as Rg.
  pose proof (route_is f "/docs" ltac:(discriminate) ltac:(discriminate))
    as Rd.
  pose proof (route_is f "/contact" ltac:(discriminate) ltac:(discriminate))
    as Rc.
  pose proof (home_alias_route f) as Rh.
  rewrite !Hinj.
  split; [now rewrite Hh|]. split; [now rewrite Hb|].
  split; [now rewrite Hg|]. split; [now rewrite Hd|].
  split; [now rewrite Hc|].
  rewrite <- spec_composer_unknown. cbn [In KNOWN_ROUTES].
  split.
  - intros H. split.
    + destruct (home_alias f); [|reflexivity].
      exfalso. apply H. left. symmetry. now apply Rh.
    + repeat split; intros E;
        [apply Rb in E|apply Rg in E|apply Rd in E|apply Rc in E];
        apply H; rewrite E; tauto.
  - intros [Ha [Nb [Ng [Nd Nc]]]] [E|[E|[E|[E|[E|[]]]]]]; symmetry in E.
    + apply Rh in E. congruence.
    + now apply Rb in E.
    + now apply Rg in E.
    + now apply Rd in E.
    + now apply Rc in E.
Qed.

(** ** The navigation bar and the mobile menu *)

(** ** The navigation bar and the mobile menu *)

Lemma route_cases (route : string) :
  route = "/" \/ route = "/builds" \/ route = "/gallery" \/
  route = "/docs" \/ route = "/contact" \/
  (String.eqb route "/" = false /\ String.eqb route "/builds" = false /\
   String.eqb route "/gallery" = false /\ String.eqb route "/docs" = false /\
   String.eqb route "/contact" = false).
Proof.
  destruct (String.eqb_spec route "/"); [tauto|].
  destruct (String.eqb_spec route "/builds"); [tauto|].
  destruct (String.eqb_spec route "/gallery"); [tauto|].
  destruct (String.eqb_spec route "/docs"); [tauto|].
  destruct (String.eqb_spec route "/contact"); [tauto|].
  do 5 right. repeat split.
Qed.

(** X5. For every route, the bar underlines exactly the buttons whose
    target is that route: one for each of the five routes, none on any
    other page.  The drop-down of the mobile menu lists the same labels and
    targets in the same order and shades the same entry.  The page shows
    the view of the marked button, and "not found" when none is marked. *)
Theorem nav_bar_marks_current_route (route : string) :
  map btn_target (TopNav route) = KNOWN_ROUTES /\
  map underlined (TopNav route) = map (String.eqb route) KNOWN_ROUTES /\
  length (filter underlined (TopNav route))
  = (if JS.includes KNOWN_ROUTES route then 1 else 0) /\
  map (fun b => (btn_label b, btn_target b)) (MobileMenu_items route)
  = map (fun b => (btn_label b, btn_target b)) (TopNav route) /\
  map shaded (MobileMenu_items route) = map underlined (TopNav route) /\
  App_main route
  = map (fun b => spec_composer (btn_target b))
        (filter underlined (TopNav route))
    ++ (if JS.includes KNOWN_ROUTES route then [] else [NotFoundView]).
Proof.
  split; [reflexivity|].
  destruct (route_cases route)
    as [->|[->|[->|[->|[->|[H1 [H2 [H3 [H4 H5]]]]]]]]];
    try (repeat split; reflexivity).
  unfold App_main, App_slots, App_conditions, TopNav, MobileMenu_items,
    JS.includes, JS.strict_eq, KNOWN_ROUTES.
  cbn [map existsb fst snd].
  rewrite H1, H2, H3, H4, H5. repeat split; reflexivity.
Qed.

(** ** Clicks *)

Lemma known_target (t : string) :
  In t KNOWN_ROUTES ->
  stored_verbatim t = true /\ t <> "" /\ spec_composer t <> NotFoundView /\
  map btn_target (filter underlined (TopNav t)) = [t] /\
  map btn_target (filter shaded (MobileMenu_items t)) = [t].
Proof.
  cbn. intros [<-|[<-|[<-|[<-|[<-|[]]]]]]; repeat split; discriminate.
Qed.

Lemma nth_error_target (bs : list NavButton) (n : nat) (b : NavButton) :
  nth_error bs n = Some b -> In (btn_target b) (map btn_target bs).
Proof. intros H. apply in_map. now apply nth_error_In with n. Qed.



(** X8. An entry of the drop-down can be clicked only while the menu is
    open.  The click closes the menu at once, route unchanged; after the
    dispatch the route is the target of the entry, the page shows its view,
    and the menu, when opened again, shades that entry alone.  [App] has
    then been called once more when the target is another route, not at
    all when the fragment is the target already, and at most once in any
    case.  The icon flips the menu; route, fragment, queue, listeners and
    the number of calls of [App] stay as they are. *)
Theorem menu_item_click (p : Page) (i : Instance) (n : nat) :
  settled (world p) -> app (world p) = Some i ->
  (menu_open p = false -> ui_step p (User (MenuItem n)) = p) /\
  (let p2 := ui_step p (User MenuIcon) in
   menu_open p2 = negb (menu_open p) /\
   currentRoute (world p2) = currentRoute (world p) /\
   fragment (world p2) = fragment (world p) /\
   queue (world p2) = queue (world p) /\
   listeners (world p2) = listeners (world p) /\
   notifications (world p2) = notifications (world p)) /\
  (forall b,
      menu_open p = true ->
      nth_error (MobileMenu_items (route i)) n = Some b ->
      let p1 := ui_step p (User (MenuItem n)) in
      let w' := dispatch_hashchange (world p1) in
      menu_open p1 = false /\
      MobileMenu (menu_open p1) (route i) = None /\
      currentRoute (world p1) = Some (route i) /\
      settled w' /\
      currentRoute w' = Some (btn_target b) /\
      App_main (btn_target b) = [spec_composer (btn_target b)] /\
      spec_composer (btn_target b) <> NotFoundView /\
      map btn_target (filter shaded (MobileMenu_items (btn_target b)))
      = [btn_target b] /\
      (btn_target b <> route i ->
       notifications w' = S (notifications (world p))) /\
      (fragment (world p) = Some (btn_target b) ->
       notifications w' = notifications (world p)) /\
      notifications w' <= S (notifications (world p))).
Proof.
  intros Hs Ha. cbn [ui_step]. unfold click. rewrite Ha.
  split; [now intros ->|].
  split; [cbv zeta; cbn [world menu_open]; now repeat split|].
  intros b Ho Hb. rewrite Ho. cbn [MobileMenu JS.and_then].
  unfold MobileMenu. cbn [JS.and_then]. rewrite Hb. cbn [world menu_open].
  assert (Hk : In (btn_target b) KNOWN_ROUTES)
    by (apply (nth_error_target _ _ _ Hb)).
  destruct (known_target _ Hk) as [Hv [Hne [Hnf [_ Hu]]]].
  destruct (settled_route (world p) i Hs Ha) as [_ [Hri _]].
  destruct (nav_from_rest (world p) i (btn_target b) Hs Ha Hv Hne)
    as [H0 [H1 [H2 [_ [_ [_ H3]]]]]].
  split; [reflexivity|]. split; [reflexivity|]. split; [exact H0|].
  split; [exact H1|]. split; [exact H2|]. split; [apply App_main_spec|].
  split; [exact Hnf|]. split; [exact Hu|].
  rewrite H3.
  assert (Hfr : fragment (world p) = Some (btn_target b) ->
                btn_target b = route i).
  { intros E. rewrite Hri, E. symmetry. now apply route_of_fragment_some. }
  destruct (fragment_eqb_spec (Some (btn_target b)) (fragment (world p)))
    as [E|N];
    destruct (String.eqb_spec (btn_target b) (route i)) as [E'|N'];
    try (exfalso; apply N'; apply Hfr; congruence);
    try destruct (stale i);
    repeat split; intros; try congruence; try lia.
Qed.

Lemma menu_item_click_witness :
  let p := mkPage (mount (page_load None [])) true in
  let p1 := ui_step p (User (MenuItem 4)) in
  menu_open p1 = false /\
  currentRoute (dispatch_hashchange (world p1)) = Some "/contact" /\
  notifications (dispatch_hashchange (world p1)) = 1.
Proof.
  intros p p1.
  destruct (menu_item_click p
              (mkInstance "/" 0 (Some (mkEffect 1 (Some []))) false) 4
              (settled_mount_page_load None) eq_refl)
    as [_ [_ H]].
  destruct (H (mkNavButton "Contact" "/contact" "w-full text-left px-4 py-2 ")
              eq_refl eq_refl) as [Hm [_ [_ [_ [Hr [_ [_ [_ [Hn _]]]]]]]]].
  split; [exact Hm|]. split; [exact Hr|]. apply Hn. discriminate.
Defined.

Lemma view_buttons_shown (r : string) :
  flat_map view_buttons (App_main r)
  = if String.eqb r "/" then Hero else [].
Proof.
  rewrite App_main_spec. cbn [flat_map]. rewrite app_nil_r.
  unfold spec_composer.
  destruct (String.eqb r "/"); [reflexivity|].
  repeat (match goal with
          | |- context [if ?c then _ else _] => destruct c
          end; try reflexivity).
Qed.

(** X9. The two buttons of the hero exist on the home page only, and a
    click on one always leaves it: after the dispatch [App] has rendered
    exactly once more and shows the builds or the documents, where no hero
    button is left. *)
Theorem hero_button_click (p : Page) (i : Instance) (n : nat)
    (b : NavButton) :
  settled (world p) -> app (world p) = Some i ->
  nth_error (flat_map view_buttons (App_main (route i))) n = Some b ->
  let p1 := ui_step p (User (HeroButton n)) in
  let w' := dispatch_hashchange (world p1) in
  route i = "/" /\
  settled w' /\
  currentRoute w' = Some (btn_target b) /\
  notifications w' = S (notifications (world p)) /\
  (App_main (btn_target b) = [BuildsView] \/
   App_main (btn_target b) = [DocumentsView]) /\
  flat_map view_buttons (App_main (btn_target b)) = [].
Proof.
  intros Hs Ha Hb p1 w'. subst w' p1.
  cbn [ui_step]. unfold click. rewrite Ha, Hb. cbn [world].
  rewrite view_buttons_shown in Hb.
  destruct (String.eqb_spec (route i) "/") as [Hr|_];
    [|destruct n; discriminate].
  assert (Hcases : b = mkNavButton "See Builds" "/builds"
                         "px-5 py-3 bg-amber-500 rounded shadow font-semibold"
                   \/ b = mkNavButton "Factory Documents" "/docs"
                            "px-5 py-3 border border-white/30 rounded").
  { destruct n as [|[|n]]; cbn in Hb;
      [left|right|destruct n; discriminate]; congruence. }
  split; [exact Hr|].
  destruct (settled_route (world p) i Hs Ha) as [Hc _]. rewrite Hr in Hc.
  destruct Hcases as [-> | ->]; cbn [btn_target];
    [destruct (nav_from_rest (world p) i "/builds" Hs Ha eq_refl
                 ltac:(discriminate)) as [_ [H1 [H2 _]]];
     destruct (nav_new_route (world p) "/builds" Hs eq_refl
                 ltac:(discriminate) ltac:(congruence)) as [_ [_ [H3 _]]]
    |destruct (nav_from_rest (world p) i "/docs" Hs Ha eq_refl
                 ltac:(discriminate)) as [_ [H1 [H2 _]]];
     destruct (nav_new_route (world p) "/docs" Hs eq_refl
                 ltac:(discriminate) ltac:(congruence)) as [_ [_ [H3 _]]]];
    (split; [exact H1|]); (split; [exact H2|]); (split; [exact H3|]);
    (split; [|reflexivity]); [left|right]; reflexivity.
Qed.

Lemma hero_button_click_witness :
  let p := mkPage (mount (page_load (Some "") [])) false in
  let p1 := ui_step p (User (HeroButton 0)) in
  currentRoute (dispatch_hashchange (world p1)) = Some "/builds" /\
  notifications (dispatch_hashchange (world p1)) = 1.
Proof.
  intros p p1.
  destruct (hero_button_click p
              (mkInstance "/" 0 (Some (mkEffect 1 (Some []))) false) 0
              (mkNavButton "See Builds" "/builds"
                 "px-5 py-3 bg-amber-500 rounded shadow font-semibold")
              (settled_mount_page_load (Some "")) eq_refl eq_refl)
    as [_ [_ [Hr [Hn _]]]].
  split; [exact Hr|exact Hn].
Defined.

(** ** Round trip *)

(** X10. From rest on route [r], going to another route [t] and back with
    [nav] (both non-empty and stored as given) ends at rest on [r] again
    after two re-renders, with the listeners as they were; the fragment is
    then [r] itself, whatever home alias the address had before. *)
Theorem there_and_back (w : World) (r t : string) :
  settled w -> currentRoute w = Some r ->
  stored_verbatim r = true -> stored_verbatim t = true ->
  t <> "" -> t <> r ->
  let w1 := dispatch_hashchange (nav t w) in
  let w2 := dispatch_hashchange (nav r w1) in
  currentRoute w1 = Some t /\
  settled w2 /\
  currentRoute w2 = Some r /\
  fragment w2 = Some r /\
  listeners w2 = listeners w /\
  notifications w2 = S (S (notifications w)).
Proof.
  intros Hs Hc Hvr Hvt Hne Hneq w1 w2. subst w2 w1.
  destruct (settled_mounted w Hs) as [i Ha].
  destruct (settled_route w i Hs Ha) as [Hci _].
  assert (Hri : route i = r) by congruence.
  assert (Hner : r <> "").
  { destruct (settled_registered w i Hs Ha) as [_ [_ Hr]].
    rewrite <- Hri, Hr. apply read_route_nonempty. }
  destruct (nav_from_rest w i t Hs Ha Hvt Hne)
    as [_ [Hs1 [Hc1 [_ [Hl1 _]]]]].
  destruct (nav_new_route w t Hs Hvt Hne ltac:(congruence))
    as [_ [_ [Hn1 _]]].
  set (w1 := dispatch_hashchange (nav t w)) in *.
  destruct (settled_mounted w1 Hs1) as [i1 Ha1].
  destruct (nav_from_rest w1 i1 r Hs1 Ha1 Hvr Hner)
    as [_ [Hs2 [Hc2 [Hf2 [Hl2 _]]]]].
  destruct (nav_new_route w1 r Hs1 Hvr Hner ltac:(congruence))
    as [_ [_ [Hn2 _]]].
  split; [exact Hc1|]. split; [exact Hs2|]. split; [exact Hc2|].
  split; [exact Hf2|]. split; [congruence|congruence].
Qed.

Lemma there_and_back_witness :
  let w := mount (page_load None []) in
  let w2 := dispatch_hashchange
              (nav "/" (dispatch_hashchange (nav "/gallery" w))) in
  fragment w = None /\ fragment w2 = Some "/" /\
  currentRoute w2 = currentRoute w /\ notifications w2 = 2.
Proof.
  intros w w2.
  destruct (there_and_back w "/" "/gallery" (settled_mount_page_load None)
              eq_refl eq_refl eq_refl ltac:(discriminate)
              ltac:(discriminate))
    as [_ [_ [Hc [Hf [_ Hn]]]]].
  split; [reflexivity|]. split; [exact Hf|]. split; [exact Hc|exact Hn].
Defined.

(** ** One dispatch *)



(** ** The site never leads to "not found" *)

(** ** The site never leads to "not found" *)

Lemma known_route_fragment (t : string) :
  In t KNOWN_ROUTES ->
  Browser.hash_setter_fragment t = Some t /\ route_of_fragment (Some t) = t.
Proof. cbn. intros [<-|[<-|[<-|[<-|[<-|[]]]]]]; split; reflexivity. Qed.

(** A mount, an unmount, a dispatch, a [nav] to one of the five routes or
    the link to [#/] keep the fragment and the route among the five. *)
Lemma tame_step (others : list nat) (w : World) (ev : Event) :
  tame ev -> subscribed others w ->
  In (route_of_fragment (fragment w)) KNOWN_ROUTES ->
  (forall i, app w = Some i -> In (route i) KNOWN_ROUTES) ->
  In (route_of_fragment (fragment (step w ev))) KNOWN_ROUTES /\
  (forall i, app (step w ev) = Some i -> In (route i) KNOWN_ROUTES).
Proof.
  intros Ht Hsub Hf Hr. destruct ev as [| |to|f|]; cbn [step tame] in *.
  - unfold mount. destruct (app w) as [i|] eqn:Ha.
    + split; [exact Hf|]. intros j Hj. apply Hr. congruence.
    + cbn. split; [exact Hf|]. intros j [= <-]. cbn.
      now rewrite read_route_fragment.
  - unfold unmount. destruct (app w) as [i|] eqn:Ha.
    + split; [|discriminate]. now destruct (effect i).
    + split; [exact Hf|]. intros j Hj. congruence.
  - destruct (known_route_fragment to Ht) as [Hset Hro]. unfold nav.
    destruct (set_location_hash_cases to w) as [-> | ->]; [now split|].
    rewrite Hset. cbn [fragment app set_queue set_fragment].
    rewrite Hro. now split.
  - subst f. unfold goto_fragment.
    destruct (Browser.fragment_eqb _ _); [now split|].
    cbn [fragment app set_queue set_fragment]. split; [cbn; tauto|exact Hr].
  - destruct (app w) as [i|] eqn:Ha.
    + destruct Hsub as [_ Happ]. rewrite Ha in Happ.
      destruct Happ as [h [He _]].
      destruct (dispatch_shape w i _ Ha He eq_refl)
        as [i' [Ha' [_ [Hr' [_ [_ Hf']]]]]].
      rewrite Hf'. split; [exact Hf|].
      intros j Hj. assert (j = i') by congruence. subst j.
      destruct Hr' as [-> | ->];
        [now apply Hr|now rewrite read_route_fragment].
    + unfold dispatch_hashchange. destruct (queue w) as [|q].
      * split; [exact Hf|]. intros j Hj. congruence.
      * rewrite (fold_invoke_unmounted _ (set_queue q w) Ha).
        split; [exact Hf|]. cbn. intros j Hj. congruence.
Qed.

(** What an internal event does to the host: nothing, or one tame event. *)
Lemma ui_step_tame (p : Page) (e : UIEvent) :
  internal e = true ->
  world (ui_step p e) = world p \/
  exists ev, tame ev /\ world (ui_step p e) = step (world p) ev.
Proof.
  intros Hi. destruct e as [ev|c].
  - destruct ev as [| |to|f|]; try discriminate; cbn [ui_step].
    + destruct (app (world p)) eqn:Ha; [now left|].
      right. exists Mount. now split.
    + right. exists Unmount. now split.
    + right. exists Dispatch. now split.
  - cbn [ui_step]. unfold click.
    destruct (app (world p)) as [i|]; [|now left].
    destruct c as [n| |n|n|].
    + destruct (nth_error (TopNav (route i)) n) as [b|] eqn:Hb; [|now left].
      right. exists (Nav (btn_target b)). split; [|reflexivity].
      apply (nth_error_target _ _ _ Hb).
    + now left.
    + unfold MobileMenu, JS.and_then.
      destruct (menu_open p); [|now left].
      destruct (nth_error (MobileMenu_items (route i)) n) as [b|] eqn:Hb;
        [|now left].
      right. exists (Nav (btn_target b)). split; [|reflexivity].
      apply (nth_error_target _ _ _ Hb).
    + destruct (nth_error _ n) as [b|] eqn:Hb; [|now left].
      right. exists (Nav (btn_target b)). split; [|reflexivity].
      rewrite view_buttons_shown in Hb.
      destruct (String.eqb (route i) "/"); [|destruct n; discriminate].
      apply nth_error_In in Hb. cbn in Hb.
      destruct Hb as [<-|[<-|[]]]; cbn; tauto.
    + right. exists (Goto (Some "/")). now split.
Qed.

(** X12. A page loaded on an address of one of the five routes never shows
    "not found", whatever is clicked: through any sequence of mounts,
    unmounts, dispatches, clicks on the bar, the menu, the hero buttons and
    the logo, the fragment stands for one of the five routes and so does
    the route of [App].  Only a fragment coming from outside the site can
    lead to "not found". *)
Theorem site_navigation_closed (f : option string) (others : list nat)
    (es : list UIEvent) :
  In (route_of_fragment f) KNOWN_ROUTES ->
  forallb internal es = true ->
  let p := ui_run es (mkPage (page_load f others) false) in
  In (route_of_fragment (fragment (world p))) KNOWN_ROUTES /\
  (forall r, currentRoute (world p) = Some r ->
             In r KNOWN_ROUTES /\ App_main r <> [NotFoundView]).
Proof.
  intros Hf Hes p.
  assert (Hinv : subscribed others (world p) /\
                 In (route_of_fragment (fragment (world p))) KNOWN_ROUTES /\
                 (forall i, app (world p) = Some i ->
                            In (route i) KNOWN_ROUTES)).
  { subst p.
    assert (H0 : subscribed others (world (mkPage (page_load f others) false))
                 /\ In (route_of_fragment
                          (fragment (world (mkPage (page_load f others)
                                                   false)))) KNOWN_ROUTES
                 /\ (forall i, app (world (mkPage (page_load f others) false))
                               = Some i -> In (route i) KNOWN_ROUTES)).
    { split; [apply subscribed_page_load|]. split; [exact Hf|discriminate]. }
    revert H0 Hes. generalize (mkPage (page_load f others) false).
    induction es as [|e es IH]; intros p0 H0 Hes; [exact H0|].
    cbn [forallb] in Hes. apply andb_prop in Hes. destruct Hes as [He Hes].
    cbn [ui_run fold_left]. apply IH; [|exact Hes].
    destruct H0 as [Hsub [Hfr Hro]].
    destruct (ui_step_tame p0 e He) as [-> | [ev [Ht ->]]];
      [split; [exact Hsub|split; [exact Hfr|exact Hro]]|].
    split; [now apply subscribed_step|].
    now apply (tame_step others). }
  destruct Hinv as [_ [Hfr Hro]]. split; [exact Hfr|].
  intros r Hc. unfold currentRoute in Hc.
  destruct (app (world p)) as [i|]; [|discriminate].
  cbn in Hc. assert (Hr : In r KNOWN_ROUTES) by (injection Hc as <-; auto).
  split; [exact Hr|].
  rewrite App_main_spec. intros [= H].
  now apply (proj2 (spec_composer_unknown r)) in H.
Qed.

Lemma site_navigation_closed_witness :
  let p := ui_run [Host Mount; User (HeroButton 1); Host Dispatch;
                   User MenuIcon; User (MenuItem 2); User Logo;
                   Host Dispatch; Host Dispatch; User (TopNavButton 4);
                   Host Dispatch]
                  (mkPage (page_load None [5]) false) in
  currentRoute (world p) = Some "/contact" /\
  App_main "/contact" <> [NotFoundView].
Proof.
  intros p.
  destruct (site_navigation_closed None [5]
              [Host Mount; User (HeroButton 1); Host Dispatch;
               User MenuIcon; User (MenuItem 2); User Logo;
               Host Dispatch; Host Dispatch; User (TopNavButton 4);
               Host Dispatch])
    as [_ H]; [cbn; tauto|reflexivity|].
  split; [vm_compute; reflexivity|].
  exact (proj2 (H "/contact" ltac:(vm_compute; reflexivity))).
Defined.
